(** * GPS grid generator: great-circle distance and dense city grids

    A shallow embedding of [gps-city-radius-extractor.py].

    Numbers.  Python's [float] is read as a real number: every arithmetic
    operation is the exact one on [R], and [math.sin], [math.cos],
    [math.asin], [math.sqrt] are the functions of the Standard Library's
    real analysis.  Rounding, NaN and the infinities of binary64 are not
    part of this model.

    Exceptions.  The three places where Python raises on a real argument
    are kept: [/] raises [ZeroDivisionError] on a zero divisor,
    [math.sqrt] raises [ValueError] on a negative argument, [math.asin]
    raises [ValueError] outside [-1, 1].

    Loops.  The two [while] loops of [create_dense_grid] recurse on a
    fuel counter; running out of fuel is the outcome [OutOfFuel], which
    stands for a loop that has not finished yet. *)

From Stdlib Require Import Reals Machin Lra Lia List Sorted ZArith String.
Import ListNotations.

Open Scope R_scope.

(** ** Outcomes of a Python computation *)

Inductive exn : Type :=
| ZeroDivisionError
| ValueError.

Inductive outcome (A : Type) : Type :=
| Ret (a : A)
| Raise (e : exn)
| OutOfFuel.

Arguments Ret {A} a.
Arguments Raise {A} e.
Arguments OutOfFuel {A}.

Definition bind {A B : Type} (m : outcome A) (k : A -> outcome B) : outcome B :=
  match m with
  | Ret a => k a
  | Raise e => Raise e
  | OutOfFuel => OutOfFuel
  end.

Notation "x <- m ;; k" := (bind m (fun x => k))
  (at level 61, m at next level, right associativity).

Definition omap {A B : Type} (f : A -> B) (m : outcome A) : outcome B :=
  x <- m ;; Ret (f x).

(** ** Float operations that can raise *)

(** [x / y] *)
Definition py_div (x y : R) : outcome R :=
  if Req_dec_T y 0 then Raise ZeroDivisionError else Ret (x / y).

(** [math.sqrt] *)
Definition math_sqrt (x : R) : outcome R :=
  if Rlt_dec x 0 then Raise ValueError else Ret (sqrt x).

(** [math.asin] *)
Definition math_asin (x : R) : outcome R :=
  if Rle_dec (-1) x then
    if Rle_dec x 1 then Ret (asin x) else Raise ValueError
  else Raise ValueError.

(** [math.radians] *)
Definition radians (x : R) : R := x * (PI / 180).

(** ** Constants *)

Definition EARTH_RADIUS_KM : R := 6371.
Definition CITY_RADIUS_KM : R := 20.

(** ** haversine *)

(** The value [a] of the haversine formula, from the four arguments in
    decimal degrees. *)
Definition haversine_a (lat1 lon1 lat2 lon2 : R) : R :=
  let lat1 := radians lat1 in
  let lon1 := radians lon1 in
  let lat2 := radians lat2 in
  let lon2 := radians lon2 in
  let dlon := lon2 - lon1 in
  let dlat := lat2 - lat1 in
  sin (dlat / 2) ^ 2 + cos lat1 * cos lat2 * sin (dlon / 2) ^ 2.

Definition haversine (lat1 lon1 lat2 lon2 : R) : outcome R :=
  let a := haversine_a lat1 lon1 lat2 lon2 in
  r <- math_sqrt a ;;
  s <- math_asin r ;;
  let c := 2 * s in
  let distance := EARTH_RADIUS_KM * c in
  Ret distance.

(** ** create_dense_grid *)

(** A grid point is the tuple [(current_lat, current_lon, distance)]. *)
Definition GridPoint : Type := (R * R * R)%type.

Definition gp_lat (p : GridPoint) : R := fst (fst p).
Definition gp_lon (p : GridPoint) : R := snd (fst p).
Definition gp_dist (p : GridPoint) : R := snd p.

Definition km_per_degree_lat : R := 111.
Definition degrees_per_km_lat : outcome R := py_div 1 km_per_degree_lat.

Definition km_per_degree_lon (lat : R) : R := 111 * cos (radians lat).
Definition degrees_per_km_lon (lat : R) : outcome R :=
  py_div 1 (km_per_degree_lon lat).

Definition lat_step (spacing_km : R) : outcome R :=
  d <- degrees_per_km_lat ;; Ret (d * spacing_km).
Definition lon_step (lat spacing_km : R) : outcome R :=
  d <- degrees_per_km_lon lat ;; Ret (d * spacing_km).

Definition lat_radius_in_degrees (radius_km : R) : outcome R :=
  d <- degrees_per_km_lat ;; Ret (radius_km * d).
Definition lon_radius_in_degrees (lat radius_km : R) : outcome R :=
  d <- degrees_per_km_lon lat ;; Ret (radius_km * d).

Section Scan.

(** What the loops read but do not change. *)
Variables (lat lon radius_km : R).
Variables (max_lat max_lon min_lon : R).
Variables (lat_step' lon_step' : R).

(** The inner loop, [while current_lon <= max_lon], on one row. *)
Fixpoint scan_lon (fuel : nat) (current_lat current_lon : R)
         (grid_points : list GridPoint) : outcome (list GridPoint) :=
  match fuel with
  | O => OutOfFuel
  | S fuel' =>
      if Rle_dec current_lon max_lon then
        distance <- haversine lat lon current_lat current_lon ;;
        let grid_points' :=
          if Rle_dec distance radius_km
          then grid_points ++ [(current_lat, current_lon, distance)]
          else grid_points in
        scan_lon fuel' current_lat (current_lon + lon_step') grid_points'
      else Ret grid_points
  end.

(** The outer loop, [while current_lat <= max_lat]; every row gets
    [row_fuel] for its inner loop. *)
Fixpoint scan_lat (row_fuel fuel : nat) (current_lat : R)
         (grid_points : list GridPoint) : outcome (list GridPoint) :=
  match fuel with
  | O => OutOfFuel
  | S fuel' =>
      if Rle_dec current_lat max_lat then
        grid_points' <- scan_lon row_fuel current_lat min_lon grid_points ;;
        scan_lat row_fuel fuel' (current_lat + lat_step') grid_points'
      else Ret grid_points
  end.

(** The latitudes at which the body of the outer loop runs, one per
    row of the scan: the outer loop without its body. *)
Fixpoint row_latitudes (fuel : nat) (current_lat : R) : outcome (list R) :=
  match fuel with
  | O => OutOfFuel
  | S fuel' =>
      if Rle_dec current_lat max_lat then
        rest <- row_latitudes fuel' (current_lat + lat_step') ;;
        Ret (current_lat :: rest)
      else Ret []
  end.

End Scan.

Definition create_dense_grid (fuel : nat) (lat lon radius_km spacing_km : R)
  : outcome (list GridPoint) :=
  degrees_per_km_lat <- degrees_per_km_lat ;;
  degrees_per_km_lon <- degrees_per_km_lon lat ;;
  let lat_step := degrees_per_km_lat * spacing_km in
  let lon_step := degrees_per_km_lon * spacing_km in
  let lat_radius_in_degrees := radius_km * degrees_per_km_lat in
  let lon_radius_in_degrees := radius_km * degrees_per_km_lon in
  let min_lat := lat - lat_radius_in_degrees in
  let max_lat := lat + lat_radius_in_degrees in
  let min_lon := lon - lon_radius_in_degrees in
  let max_lon := lon + lon_radius_in_degrees in
  scan_lat lat lon radius_km max_lat max_lon min_lon lat_step lon_step
           fuel fuel min_lat [].

(** The rows the scan of [create_dense_grid] goes through. *)
Definition grid_rows (fuel : nat) (lat radius_km spacing_km : R)
  : outcome (list R) :=
  degrees_per_km_lat <- degrees_per_km_lat ;;
  let lat_step := degrees_per_km_lat * spacing_km in
  let lat_radius_in_degrees := radius_km * degrees_per_km_lat in
  let min_lat := lat - lat_radius_in_degrees in
  let max_lat := lat + lat_radius_in_degrees in
  row_latitudes max_lat lat_step fuel min_lat.

(** ** process_cities *)

(** A row of the city data frame, with the columns [process_cities] reads. *)
Record CityRecord : Type := {
  geonameid : Z;
  name : string;
  latitude : R;
  longitude : R;
  population : Z;
  country_code : string
}.

(** A row of the output frame. *)
Record OutputRow : Type := {
  city_id : Z;
  city_name : string;
  country : string;
  out_population : Z;
  city_lat : R;
  city_lon : R;
  point_lat : R;
  point_lon : R;
  distance_km : R
}.

(** The dictionary appended for one grid point of the city [row]. *)
Definition stamp (row : CityRecord) (p : GridPoint) : OutputRow :=
  let '(point_lat, point_lon, distance) := p in
  {| city_id := geonameid row;
     city_name := name row;
     country := country_code row;
     out_population := population row;
     city_lat := latitude row;
     city_lon := longitude row;
     point_lat := point_lat;
     point_lon := point_lon;
     distance_km := distance |}.

Fixpoint process_cities_from (fuel : nat) (df : list CityRecord)
         (spacing_km : R) (all_points : list OutputRow)
  : outcome (list OutputRow) :=
  match df with
  | [] => Ret all_points
  | row :: df' =>
      grid_points <- create_dense_grid fuel (latitude row) (longitude row)
                                       CITY_RADIUS_KM spacing_km ;;
      process_cities_from fuel df' spacing_km
                          (all_points ++ map (stamp row) grid_points)
  end.

Definition process_cities (fuel : nat) (df : list CityRecord) (spacing_km : R)
  : outcome (list OutputRow) :=
  process_cities_from fuel df spacing_km [].

(** The part of an output row that comes from the grid point. *)
Definition row_point (r : OutputRow) : GridPoint :=
  (point_lat r, point_lon r, distance_km r).

(** The center a row was generated for. *)
Definition row_center (r : OutputRow) : R * R := (city_lat r, city_lon r).

(** The coordinates of a city. *)
Definition coordinates (c : CityRecord) : R * R := (latitude c, longitude c).

(** Two cities at the same place, with different metadata. *)
Definition city_quito : CityRecord :=
  {| geonameid := 1; name := "Quito"; latitude := 0; longitude := 0;
     population := 20000; country_code := "EC" |}.

Definition city_null_island : CityRecord :=
  {| geonameid := 2; name := "Null Island"; latitude := 0; longitude := 0;
     population := 15000; country_code := "ZZ" |}.


(** ** Predicates on grid points *)

(** [p] carries its haversine distance from the center, and that
    distance is at most the radius. *)
Definition within_radius (lat lon radius_km : R) (p : GridPoint) : Prop :=
  haversine lat lon (gp_lat p) (gp_lon p) = Ret (gp_dist p) /\
  gp_dist p <= radius_km.

(** [p] lies in the box [min_lat, max_lat] x [min_lon, max_lon]. *)
Definition in_box (min_lat max_lat min_lon max_lon : R) (p : GridPoint)
  : Prop :=
  min_lat <= gp_lat p <= max_lat /\ min_lon <= gp_lon p <= max_lon.



(** * Properties *)

(** ** The haversine formula *)

Lemma sin_half_sqr_opp (x y : R) :
  sin ((x - y) / 2) ^ 2 = sin ((y - x) / 2) ^ 2.
Proof.
  replace ((x - y) / 2) with (- ((y - x) / 2)) by lra.
  rewrite sin_neg. ring.
Qed.

Lemma haversine_a_sym (lat1 lon1 lat2 lon2 : R) :
  haversine_a lat1 lon1 lat2 lon2 = haversine_a lat2 lon2 lat1 lon1.
Proof.
  unfold haversine_a; cbv zeta.
  rewrite (sin_half_sqr_opp (radians lat2) (radians lat1)).
  rewrite (sin_half_sqr_opp (radians lon2) (radians lon1)).
  ring.
Qed.

Lemma sqr_sin_bound (x : R) : 0 <= sin x ^ 2 <= 1.
Proof.
  pose proof (sin2_cos2 x) as H. unfold Rsqr in H.
  pose proof (pow2_ge_0 (sin x)). pose proof (pow2_ge_0 (cos x)).
  split; nra.
Qed.

Lemma sqr_cos_bound (x : R) : 0 <= cos x ^ 2 <= 1.
Proof.
  pose proof (sin2_cos2 x) as H. unfold Rsqr in H.
  pose proof (pow2_ge_0 (sin x)). pose proof (pow2_ge_0 (cos x)).
  split; nra.
Qed.

(** [cos p * cos q] as a difference of two squares, at the half sum and
    the half difference of the angles. *)
Lemma cos_mult_half (p q : R) :
  cos p * cos q = cos ((p + q) / 2) ^ 2 - sin ((q - p) / 2) ^ 2.
Proof.
  set (u := (p + q) / 2). set (v := (q - p) / 2).
  replace p with (u - v) at 1 by (unfold u, v; lra).
  replace q with (u + v) at 1 by (unfold u, v; lra).
  rewrite cos_minus, cos_plus.
  pose proof (sin2_cos2 u) as Hu. pose proof (sin2_cos2 v) as Hv.
  unfold Rsqr in Hu, Hv.
  nra.
Qed.

(** The formula's [a] is a mean of two squares, hence in [0, 1]. *)
Lemma haversine_a_bound (lat1 lon1 lat2 lon2 : R) :
  0 <= haversine_a lat1 lon1 lat2 lon2 <= 1.
Proof.
  unfold haversine_a; cbv zeta.
  rewrite cos_mult_half.
  pose proof (sqr_sin_bound ((radians lat2 - radians lat1) / 2)) as HA.
  pose proof (sqr_cos_bound ((radians lat1 + radians lat2) / 2)) as HB.
  pose proof (sqr_sin_bound ((radians lon2 - radians lon1) / 2)) as HH.
  set (A := sin ((radians lat2 - radians lat1) / 2) ^ 2) in *.
  set (B := cos ((radians lat1 + radians lat2) / 2) ^ 2) in *.
  set (h := sin ((radians lon2 - radians lon1) / 2) ^ 2) in *.
  split; nra.
Qed.

Lemma math_sqrt_ok (x : R) : 0 <= x -> math_sqrt x = Ret (sqrt x).
Proof.
  intros Hx. unfold math_sqrt. destruct (Rlt_dec x 0); [lra | reflexivity].
Qed.

Lemma math_asin_ok (x : R) : -1 <= x <= 1 -> math_asin x = Ret (asin x).
Proof.
  intros [H1 H2]. unfold math_asin.
  destruct (Rle_dec (-1) x); [| lra].
  destruct (Rle_dec x 1); [reflexivity | lra].
Qed.

Lemma sqrt_unit (x : R) : 0 <= x <= 1 -> 0 <= sqrt x <= 1.
Proof.
  intros [H0 H1]. split.
  - apply sqrt_pos.
  - rewrite <- sqrt_1. apply sqrt_le_1_alt. exact H1.
Qed.

Lemma asin_unit (x : R) : 0 <= x <= 1 -> 0 <= asin x <= PI / 2.
Proof.
  intros [H0 H1]. split; [| apply asin_bound].
  destruct (Rle_dec 0 (asin x)) as [Hle | Hlt]; [exact Hle |].
  exfalso.
  pose proof (asin_bound x) as [Hlo _].
  pose proof PI_RGT_0 as Hpi.
  assert (Hs : sin (asin x) < 0).
  { apply sin_lt_0_var; lra. }
  rewrite sin_asin in Hs by lra. lra.
Qed.

(** The closed form of [haversine]: it always returns. *)
Lemma haversine_eq (lat1 lon1 lat2 lon2 : R) :
  haversine lat1 lon1 lat2 lon2 =
  Ret (EARTH_RADIUS_KM * (2 * asin (sqrt (haversine_a lat1 lon1 lat2 lon2)))).
Proof.
  unfold haversine; cbv zeta.
  pose proof (haversine_a_bound lat1 lon1 lat2 lon2) as Ha.
  rewrite math_sqrt_ok by lra. cbn [bind].
  pose proof (sqrt_unit _ Ha) as Hs.
  rewrite math_asin_ok by lra. reflexivity.
Qed.

Lemma haversine_a_self (lat lon : R) : haversine_a lat lon lat lon = 0.
Proof.
  unfold haversine_a; cbv zeta.
  replace ((radians lat - radians lat) / 2) with 0 by lra.
  replace ((radians lon - radians lon) / 2) with 0 by lra.
  rewrite sin_0. ring.
Qed.

Lemma haversine_self (lat lon : R) : haversine lat lon lat lon = Ret 0.
Proof.
  rewrite haversine_eq, haversine_a_self, sqrt_0, asin_0.
  f_equal. unfold EARTH_RADIUS_KM. ring.
Qed.

(** C2. The haversine distance is symmetric: exchanging the two points
    gives the same outcome, hence the same distance. *)
Theorem haversine_symmetric (lat1 lon1 lat2 lon2 : R) :
  haversine lat1 lon1 lat2 lon2 = haversine lat2 lon2 lat1 lon1.
Proof.
  unfold haversine. rewrite (haversine_a_sym lat1 lon1 lat2 lon2). reflexivity.
Qed.

(** C6. The haversine distance of a point from itself is zero. *)
Theorem haversine_self_zero (lat lon : R) :
  haversine lat lon lat lon = Ret 0.
Proof.
  unfold haversine; cbv zeta.
  rewrite haversine_a_self.
  rewrite math_sqrt_ok by lra. cbn [bind]. rewrite sqrt_0.
  rewrite math_asin_ok by lra. cbn [bind]. rewrite asin_0.
  f_equal. unfold EARTH_RADIUS_KM. ring.
Qed.


(** ** The two loops *)

Lemma bind_Ret_inv {A B : Type} (m : outcome A) (k : A -> outcome B) (b : B) :
  bind m k = Ret b -> exists a, m = Ret a /\ k a = Ret b.
Proof.
  destruct m as [a | e |]; cbn; intros H; try discriminate.
  exists a. split; [reflexivity | exact H].
Qed.

Section ScanFacts.

Variables (lat lon radius_km : R).
Variables (max_lat max_lon min_lon : R).
Variables (lat_step' lon_step' : R).

Let scan_lon' := scan_lon lat lon radius_km max_lon lon_step'.
Let scan_lat' :=
  scan_lat lat lon radius_km max_lat max_lon min_lon lat_step' lon_step'.

(** The inner loop keeps every invariant that one turn of its body
    keeps, whether the turn appends a point or not. *)
Lemma scan_lon_invariant (current_lat : R)
      (I : R -> list GridPoint -> Prop) :
  (forall cur acc d,
      I cur acc -> cur <= max_lon ->
      haversine lat lon current_lat cur = Ret d -> d <= radius_km ->
      I (cur + lon_step') (acc ++ [(current_lat, cur, d)])) ->
  (forall cur acc d,
      I cur acc -> cur <= max_lon ->
      haversine lat lon current_lat cur = Ret d -> ~ d <= radius_km ->
      I (cur + lon_step') acc) ->
  forall fuel cur acc pts,
    I cur acc ->
    scan_lon' fuel current_lat cur acc = Ret pts ->
    exists cur', I cur' pts /\ ~ cur' <= max_lon.
Proof.
  intros Hkeep Hskip fuel.
  induction fuel as [| fuel IH]; intros cur acc pts HI Hrun.
  - discriminate.
  - cbn in Hrun. destruct (Rle_dec cur max_lon) as [Hle | Hgt].
    + apply bind_Ret_inv in Hrun. destruct Hrun as (d & Hd & Hrun).
      destruct (Rle_dec d radius_km) as [Hin | Hout].
      * eapply IH; [| exact Hrun]. eapply Hkeep; eassumption.
      * eapply IH; [| exact Hrun]. eapply Hskip; eassumption.
    + injection Hrun as <-. exists cur. split; assumption.
Qed.

(** The outer loop keeps every invariant that one row keeps. *)
Lemma scan_lat_invariant (row_fuel : nat)
      (J : R -> list GridPoint -> Prop) :
  (forall cur acc acc',
      J cur acc -> cur <= max_lat ->
      scan_lon' row_fuel cur min_lon acc = Ret acc' ->
      J (cur + lat_step') acc') ->
  forall fuel cur acc pts,
    J cur acc ->
    scan_lat' row_fuel fuel cur acc = Ret pts ->
    exists cur', J cur' pts /\ ~ cur' <= max_lat.
Proof.
  intros Hrow fuel.
  induction fuel as [| fuel IH]; intros cur acc pts HJ Hrun.
  - discriminate.
  - cbn in Hrun. destruct (Rle_dec cur max_lat) as [Hle | Hgt].
    + apply bind_Ret_inv in Hrun. destruct Hrun as (acc' & Hrow' & Hrun).
      eapply IH; [| exact Hrun]. eapply Hrow; eassumption.
    + injection Hrun as <-. exists cur. split; assumption.
Qed.

(** *** Every point kept is within the radius *)

Lemma scan_lon_within (fuel : nat) (current_lat cur : R)
      (acc pts : list GridPoint) :
  Forall (within_radius lat lon radius_km) acc ->
  scan_lon' fuel current_lat cur acc = Ret pts ->
  Forall (within_radius lat lon radius_km) pts.
Proof.
  intros Hacc Hrun.
  destruct (scan_lon_invariant current_lat
              (fun _ acc => Forall (within_radius lat lon radius_km) acc))
    with (4 := Hrun) as (cur' & H & _); try assumption.
  - intros c a d Ha _ Hd Hle. apply Forall_app. split; [exact Ha |].
    constructor; [| constructor]. split; assumption.
  - intros c a d Ha _ _ _. exact Ha.
Qed.

Lemma scan_lat_within (row_fuel fuel : nat) (cur : R)
      (acc pts : list GridPoint) :
  Forall (within_radius lat lon radius_km) acc ->
  scan_lat' row_fuel fuel cur acc = Ret pts ->
  Forall (within_radius lat lon radius_km) pts.
Proof.
  intros Hacc Hrun.
  destruct (scan_lat_invariant row_fuel
              (fun _ acc => Forall (within_radius lat lon radius_km) acc))
    with (3 := Hrun) as (cur' & H & _); try assumption.
  intros c a a' Ha _ Hrow. eapply scan_lon_within; eassumption.
Qed.

(** *** Every point kept lies in the scanned box *)

(** The corner the outer loop starts from. *)
Variable min_lat : R.

Let box := in_box min_lat max_lat min_lon max_lon.

Lemma scan_lon_box (fuel : nat) (current_lat cur : R)
      (acc pts : list GridPoint) :
  0 <= lon_step' ->
  min_lat <= current_lat <= max_lat ->
  Forall box acc -> min_lon <= cur ->
  scan_lon' fuel current_lat cur acc = Ret pts ->
  Forall box pts.
Proof.
  intros Hstep Hlat Hacc Hcur Hrun.
  destruct (scan_lon_invariant current_lat
              (fun c a => Forall box a /\ min_lon <= c))
    with (4 := Hrun) as (cur' & [H _] & _); try assumption.
  - intros c a d [Ha Hc] Hle _ _. split; [| lra].
    apply Forall_app. split; [exact Ha |].
    constructor; [| constructor].
    unfold box, in_box, gp_lat, gp_lon; cbn. lra.
  - intros c a d [Ha Hc] _ _ _. split; [exact Ha | lra].
  - split; assumption.
Qed.

Lemma scan_lat_box (row_fuel fuel : nat) (cur : R)
      (acc pts : list GridPoint) :
  0 <= lat_step' -> 0 <= lon_step' ->
  Forall box acc -> min_lat <= cur ->
  scan_lat' row_fuel fuel cur acc = Ret pts ->
  Forall box pts.
Proof.
  intros Hlat Hlon Hacc Hcur Hrun.
  destruct (scan_lat_invariant row_fuel
              (fun c a => Forall box a /\ min_lat <= c))
    with (3 := Hrun) as (cur' & [H _] & _); try assumption.
  - intros c a a' [Ha Hc] Hle Hrow. split; [| lra].
    eapply scan_lon_box; try eassumption; lra.
  - split; assumption.
Qed.

(** With an empty longitude range no row adds a point. *)
Lemma scan_lon_empty_range (fuel : nat) (current_lat : R)
      (acc pts : list GridPoint) :
  ~ min_lon <= max_lon ->
  scan_lon' fuel current_lat min_lon acc = Ret pts -> pts = acc.
Proof.
  intros Hempty Hrun. destruct fuel as [| fuel]; [discriminate |].
  cbn in Hrun. destruct (Rle_dec min_lon max_lon); [contradiction |].
  injection Hrun as <-. reflexivity.
Qed.

Lemma scan_lat_empty_range (row_fuel fuel : nat) (cur : R)
      (acc pts : list GridPoint) :
  ~ min_lon <= max_lon ->
  scan_lat' row_fuel fuel cur acc = Ret pts -> pts = acc.
Proof.
  intros Hempty Hrun.
  destruct (scan_lat_invariant row_fuel (fun _ a => a = acc))
    with (3 := Hrun) as (cur' & H & _); try assumption; try reflexivity.
  intros c a a' -> _ Hrow. eapply scan_lon_empty_range; eassumption.
Qed.

(** *** The points come out in scan order *)





(** *** The points lie on the lattice anchored at the corner *)




End ScanFacts.

(** ** The loops finish, and keep every lattice point within the radius *)

Section ScanRuns.

Variables (lat lon radius_km : R).
Variables (max_lat max_lon min_lon : R).
Variables (lat_step' lon_step' : R).

Let scan_lon' := scan_lon lat lon radius_km max_lon lon_step'.
Let scan_lat' :=
  scan_lat lat lon radius_km max_lat max_lon min_lon lat_step' lon_step'.

(** A row with a positive step ends after [n] turns when [n] steps lead
    past [max_lon]; one more unit of fuel pays for the last test. *)
Lemma scan_lon_returns (n : nat) :
  0 < lon_step' ->
  forall fuel current_lat cur acc,
    max_lon - cur < INR n * lon_step' -> (n < fuel)%nat ->
    exists pts, scan_lon' fuel current_lat cur acc = Ret pts.
Proof.
  intros Hstep. induction n as [| n IH]; intros fuel clat cur acc Hn Hfuel.
  - destruct fuel as [| fuel]; [lia |]. cbn in Hn. cbn.
    destruct (Rle_dec cur max_lon); [lra |]. eexists. reflexivity.
  - destruct fuel as [| fuel]; [lia |]. cbn -[INR].
    destruct (Rle_dec cur max_lon); [| eexists; reflexivity].
    rewrite haversine_eq. cbn [bind]. cbv zeta.
    apply IH; [| lia]. rewrite S_INR in Hn. lra.
Qed.

Lemma scan_lat_returns (row_fuel n : nat) :
  0 < lat_step' ->
  (forall current_lat acc,
      exists pts, scan_lon' row_fuel current_lat min_lon acc = Ret pts) ->
  forall fuel cur acc,
    max_lat - cur < INR n * lat_step' -> (n < fuel)%nat ->
    exists pts, scan_lat' row_fuel fuel cur acc = Ret pts.
Proof.
  intros Hstep Hrow. induction n as [| n IH]; intros fuel cur acc Hn Hfuel.
  - destruct fuel as [| fuel]; [lia |]. cbn in Hn. cbn.
    destruct (Rle_dec cur max_lat); [lra |]. eexists. reflexivity.
  - destruct fuel as [| fuel]; [lia |]. cbn -[INR].
    destruct (Rle_dec cur max_lat); [| eexists; reflexivity].
    destruct (Hrow cur acc) as [acc' Hacc']. unfold scan_lon' in Hacc'.
    rewrite Hacc'. cbn [bind].
    apply IH; [| lia]. rewrite S_INR in Hn. lra.
Qed.

(** Nothing already collected is lost. *)
Lemma scan_lon_incl (fuel : nat) (current_lat cur : R)
      (acc pts : list GridPoint) :
  scan_lon' fuel current_lat cur acc = Ret pts -> incl acc pts.
Proof.
  intros Hrun.
  destruct (scan_lon_invariant lat lon radius_km max_lon lon_step' current_lat
              (fun _ a => incl acc a))
    with (4 := Hrun) as (cur' & H & _); try assumption.
  - intros c a d Ha _ _ _. apply incl_appl. exact Ha.
  - intros c a d Ha _ _ _. exact Ha.
  - apply incl_refl.
Qed.

Lemma scan_lat_incl (row_fuel fuel : nat) (cur : R)
      (acc pts : list GridPoint) :
  scan_lat' row_fuel fuel cur acc = Ret pts -> incl acc pts.
Proof.
  intros Hrun.
  destruct (scan_lat_invariant lat lon radius_km max_lat max_lon min_lon
              lat_step' lon_step' row_fuel (fun _ a => incl acc a))
    with (3 := Hrun) as (cur' & H & _); try assumption.
  - intros c a a' Ha _ Hrow. eapply incl_tran; [exact Ha |].
    eapply scan_lon_incl. exact Hrow.
  - apply incl_refl.
Qed.

(** A row keeps the point at its [j]-th column when that column is in
    range and within the radius. *)
Lemma scan_lon_complete (current_lat : R) (j : nat) :
  0 <= lon_step' ->
  forall fuel cur acc pts d,
    scan_lon' fuel current_lat cur acc = Ret pts ->
    cur + INR j * lon_step' <= max_lon ->
    haversine lat lon current_lat (cur + INR j * lon_step') = Ret d ->
    d <= radius_km ->
    In (current_lat, cur + INR j * lon_step', d) pts.
Proof.
  intros Hstep. induction j as [| j IH]; intros fuel cur acc pts d Hrun Hle Hd Hin.
  - cbn in Hle, Hd |- *.
    replace (cur + 0 * lon_step') with cur in * by lra.
    destruct fuel as [| fuel]; [discriminate |]. cbn in Hrun.
    destruct (Rle_dec cur max_lon); [| lra].
    rewrite Hd in Hrun. cbn [bind] in Hrun. cbv zeta in Hrun.
    destruct (Rle_dec d radius_km); [| lra].
    apply (scan_lon_incl _ _ _ _ _ Hrun). apply in_or_app. right. left.
    reflexivity.
  - rewrite S_INR in Hle, Hd |- *.
    pose proof (pos_INR j) as Hj.
    replace (cur + (INR j + 1) * lon_step')
      with ((cur + lon_step') + INR j * lon_step') in * by lra.
    destruct fuel as [| fuel]; [discriminate |]. cbn in Hrun.
    destruct (Rle_dec cur max_lon) as [_ | Hgt]; [| exfalso; nra].
    apply bind_Ret_inv in Hrun. destruct Hrun as (d0 & _ & Hrun).
    eapply IH; eassumption.
Qed.

(** The scan keeps the point at row [i], column [j] when both are in
    range and the point is within the radius. *)
Lemma scan_lat_complete (row_fuel i j : nat) :
  0 <= lat_step' -> 0 <= lon_step' ->
  forall fuel cur acc pts d,
    scan_lat' row_fuel fuel cur acc = Ret pts ->
    cur + INR i * lat_step' <= max_lat ->
    min_lon + INR j * lon_step' <= max_lon ->
    haversine lat lon (cur + INR i * lat_step') (min_lon + INR j * lon_step')
      = Ret d ->
    d <= radius_km ->
    In (cur + INR i * lat_step', min_lon + INR j * lon_step', d) pts.
Proof.
  intros Hlat Hlon.
  induction i as [| i IH]; intros fuel cur acc pts d Hrun Hle Hcol Hd Hin.
  - cbn in Hle, Hd |- *.
    replace (cur + 0 * lat_step') with cur in * by lra.
    destruct fuel as [| fuel]; [discriminate |]. cbn in Hrun.
    destruct (Rle_dec cur max_lat); [| lra].
    apply bind_Ret_inv in Hrun. destruct Hrun as (acc' & Hrow & Hrun).
    apply (scan_lat_incl _ _ _ _ _ Hrun).
    eapply scan_lon_complete; eassumption.
  - rewrite S_INR in Hle, Hd |- *.
    pose proof (pos_INR i) as Hi.
    replace (cur + (INR i + 1) * lat_step')
      with ((cur + lat_step') + INR i * lat_step') in * by lra.
    destruct fuel as [| fuel]; [discriminate |]. cbn in Hrun.
    destruct (Rle_dec cur max_lat) as [_ | Hgt]; [| exfalso; nra].
    apply bind_Ret_inv in Hrun. destruct Hrun as (acc' & _ & Hrun).
    eapply IH; eassumption.
Qed.


End ScanRuns.


(** ** The degree conversions *)

Lemma degrees_per_km_lat_eq : degrees_per_km_lat = Ret (1 / 111).
Proof.
  unfold degrees_per_km_lat, py_div, km_per_degree_lat.
  destruct (Req_dec_T 111 0); [lra | reflexivity].
Qed.

Lemma degrees_per_km_lon_eq (lat : R) :
  cos (radians lat) <> 0 ->
  degrees_per_km_lon lat = Ret (1 / (111 * cos (radians lat))).
Proof.
  intros Hc. unfold degrees_per_km_lon, py_div, km_per_degree_lon.
  destruct (Req_dec_T (111 * cos (radians lat)) 0); [nra | reflexivity].
Qed.

Lemma degrees_per_km_lon_raises (lat : R) :
  cos (radians lat) = 0 ->
  degrees_per_km_lon lat = Raise ZeroDivisionError.
Proof.
  intros Hc. unfold degrees_per_km_lon, py_div, km_per_degree_lon.
  destruct (Req_dec_T (111 * cos (radians lat)) 0); [reflexivity | nra].
Qed.

Lemma radians_0 : radians 0 = 0.
Proof. unfold radians. field. Qed.


Lemma radians_90 : radians 90 = PI / 2.
Proof. unfold radians. field. Qed.

Lemma radians_opp (x : R) : radians (- x) = - radians x.
Proof. unfold radians. field. Qed.

Lemma cos_radians_0 : cos (radians 0) = 1.
Proof. rewrite radians_0. apply cos_0. Qed.


Lemma cos_radians_90 : cos (radians 90) = 0.
Proof. rewrite radians_90. apply cos_PI2. Qed.

Lemma cos_radians_minus_90 : cos (radians (- 90)) = 0.
Proof.
  replace (radians (- 90)) with (- radians 90) by (unfold radians; field).
  rewrite cos_neg. apply cos_radians_90.
Qed.

(** ** create_dense_grid as one scan *)

(** The function with its conversions spelled out by the named steps and
    radii. *)
Lemma create_dense_grid_steps (fuel : nat) (lat lon radius_km spacing_km : R) :
  create_dense_grid fuel lat lon radius_km spacing_km =
  (lat_step <- lat_step spacing_km ;;
   lon_step <- lon_step lat spacing_km ;;
   lat_radius <- lat_radius_in_degrees radius_km ;;
   lon_radius <- lon_radius_in_degrees lat radius_km ;;
   scan_lat lat lon radius_km (lat + lat_radius) (lon + lon_radius)
            (lon - lon_radius) lat_step lon_step fuel fuel
            (lat - lat_radius) []).
Proof.
  unfold create_dense_grid, lat_step, lon_step, lat_radius_in_degrees,
    lon_radius_in_degrees.
  rewrite degrees_per_km_lat_eq. cbn [bind].
  destruct (degrees_per_km_lon lat); reflexivity.
Qed.

(** Away from a zero cosine the function is the scan of the box
    [lat -+ R/111] x [lon -+ R/(111 cos lat)] with the steps [S/111] and
    [S/(111 cos lat)]. *)
Lemma create_dense_grid_scan (fuel : nat) (lat lon radius_km spacing_km : R) :
  cos (radians lat) <> 0 ->
  create_dense_grid fuel lat lon radius_km spacing_km =
  scan_lat lat lon radius_km
           (lat + radius_km / 111)
           (lon + radius_km / (111 * cos (radians lat)))
           (lon - radius_km / (111 * cos (radians lat)))
           (spacing_km / 111)
           (spacing_km / (111 * cos (radians lat)))
           fuel fuel (lat - radius_km / 111) [].
Proof.
  intros Hc. unfold create_dense_grid.
  rewrite degrees_per_km_lat_eq, (degrees_per_km_lon_eq lat Hc).
  cbn [bind]. cbv zeta.
  replace (radius_km * (1 / 111)) with (radius_km / 111) by field.
  replace (radius_km * (1 / (111 * cos (radians lat))))
    with (radius_km / (111 * cos (radians lat))) by (field; exact Hc).
  replace (1 / 111 * spacing_km) with (spacing_km / 111) by field.
  replace (1 / (111 * cos (radians lat)) * spacing_km)
    with (spacing_km / (111 * cos (radians lat))) by (field; exact Hc).
  reflexivity.
Qed.

Lemma create_dense_grid_raises (fuel : nat) (lat lon radius_km spacing_km : R) :
  cos (radians lat) = 0 ->
  create_dense_grid fuel lat lon radius_km spacing_km = Raise ZeroDivisionError.
Proof.
  intros Hc. unfold create_dense_grid.
  rewrite degrees_per_km_lat_eq, (degrees_per_km_lon_raises lat Hc).
  reflexivity.
Qed.

Lemma create_dense_grid_Ret_cos (fuel : nat) (lat lon radius_km spacing_km : R)
      (pts : list GridPoint) :
  create_dense_grid fuel lat lon radius_km spacing_km = Ret pts ->
  cos (radians lat) <> 0.
Proof.
  intros Hrun Hc.
  rewrite (create_dense_grid_raises fuel lat lon radius_km spacing_km Hc) in Hrun.
  discriminate.
Qed.

Lemma div_111_cos_pos (x c : R) : 0 < x -> 0 < c -> 0 < x / (111 * c).
Proof.
  intros Hx Hc. apply Rdiv_lt_0_compat; [exact Hx | nra].
Qed.

Lemma div_111_cos_neg (x c : R) : 0 < x -> c < 0 -> x / (111 * c) < 0.
Proof.
  intros Hx Hc.
  assert (H : / (111 * c) < 0) by (apply Rinv_lt_0_compat; nra).
  unfold Rdiv. nra.
Qed.

(** The grid is returned once the fuel exceeds a number of steps that
    spans the box. *)
Lemma create_dense_grid_returns (n fuel : nat) (lat lon radius_km spacing_km : R) :
  0 < spacing_km -> 0 < cos (radians lat) ->
  2 * radius_km < INR n * spacing_km -> (n < fuel)%nat ->
  exists pts, create_dense_grid fuel lat lon radius_km spacing_km = Ret pts.
Proof.
  intros HS Hc Hn Hfuel.
  rewrite create_dense_grid_scan by lra.
  set (c := cos (radians lat)) in *.
  assert (Hlat : 0 < spacing_km / 111) by (apply Rdiv_lt_0_compat; lra).
  assert (Hlon : 0 < spacing_km / (111 * c)) by (apply div_111_cos_pos; assumption).
  assert (Hinv : 0 < / (111 * c)) by (apply Rinv_0_lt_compat; nra).
  apply (scan_lat_returns _ _ _ _ _ _ _ _ fuel n); try assumption.
  - intros clat acc. apply (scan_lon_returns _ _ _ _ _ n); try assumption.
    unfold Rdiv. nra.
  - lra.
Qed.

(** Some fuel always suffices. *)
Lemma create_dense_grid_terminates (lat lon radius_km spacing_km : R) :
  0 < spacing_km -> 0 < cos (radians lat) ->
  exists fuel0, forall fuel, (fuel0 <= fuel)%nat ->
    exists pts, create_dense_grid fuel lat lon radius_km spacing_km = Ret pts.
Proof.
  intros HS Hc.
  destruct (INR_unbounded (2 * radius_km / spacing_km)) as [n Hn].
  exists (S n). intros fuel Hfuel.
  apply (create_dense_grid_returns n); [exact HS | exact Hc | | lia].
  apply Rmult_lt_compat_r with (r := spacing_km) in Hn; [| exact HS].
  unfold Rdiv in Hn. rewrite Rmult_assoc, Rinv_l, Rmult_1_r in Hn by lra.
  lra.
Qed.

(** ** The rows of the scan *)




Lemma grid_rows_eq (fuel : nat) (lat radius_km spacing_km : R) :
  grid_rows fuel lat radius_km spacing_km =
  row_latitudes (lat + radius_km / 111) (spacing_km / 111) fuel
                (lat - radius_km / 111).
Proof.
  unfold grid_rows. rewrite degrees_per_km_lat_eq. cbn [bind]. cbv zeta.
  replace (radius_km * (1 / 111)) with (radius_km / 111) by field.
  replace (1 / 111 * spacing_km) with (spacing_km / 111) by field.
  reflexivity.
Qed.


(** Every lattice point of the box that is within the radius is in the
    grid. *)
Lemma create_dense_grid_complete (fuel : nat)
      (lat lon radius_km spacing_km : R) (pts : list GridPoint)
      (i j : nat) (d : R) :
  0 < spacing_km -> 0 < cos (radians lat) ->
  create_dense_grid fuel lat lon radius_km spacing_km = Ret pts ->
  lat - radius_km / 111 + INR i * (spacing_km / 111)
    <= lat + radius_km / 111 ->
  lon - radius_km / (111 * cos (radians lat))
      + INR j * (spacing_km / (111 * cos (radians lat)))
    <= lon + radius_km / (111 * cos (radians lat)) ->
  haversine lat lon
            (lat - radius_km / 111 + INR i * (spacing_km / 111))
            (lon - radius_km / (111 * cos (radians lat))
             + INR j * (spacing_km / (111 * cos (radians lat)))) = Ret d ->
  d <= radius_km ->
  In (lat - radius_km / 111 + INR i * (spacing_km / 111),
      lon - radius_km / (111 * cos (radians lat))
      + INR j * (spacing_km / (111 * cos (radians lat))),
      d) pts.
Proof.
  intros HS Hc Hrun Hrow Hcol Hd Hin.
  rewrite create_dense_grid_scan in Hrun by lra.
  assert (Hlat : 0 <= spacing_km / 111)
    by (apply Rlt_le, Rdiv_lt_0_compat; lra).
  assert (Hlon : 0 <= spacing_km / (111 * cos (radians lat)))
    by (apply Rlt_le, div_111_cos_pos; assumption).
  eapply scan_lat_complete; eassumption.
Qed.

(** A grid of radius 1 and spacing 1 around [(0, 0)]: three rows of
    three columns, the center among them. *)
Lemma unit_grid_center :
  exists pts,
    create_dense_grid 4 0 0 1 1 = Ret pts /\ In (0, 0, 0) pts.
Proof.
  assert (Hc : 0 < cos (radians 0)) by (rewrite cos_radians_0; lra).
  destruct (create_dense_grid_returns 3 4 0 0 1 1) as [pts Hpts];
    try lra; try lia; try exact Hc.
  { cbn. lra. }
  exists pts. split; [exact Hpts |].
  pose proof (create_dense_grid_complete 4 0 0 1 1 pts 1 1 0) as H.
  rewrite cos_radians_0 in H. cbn [INR] in H.
  replace (0 - 1 / 111 + 1 * (1 / 111)) with 0 in H by field.
  replace (0 - 1 / (111 * 1) + 1 * (1 / (111 * 1))) with 0 in H by field.
  apply H; try lra.
  - exact Hpts.
  - apply haversine_self.
Qed.

(** ** The grid generator *)

(** C1. Every point [(p_lat, p_lon, d)] of the sequence returned by
    [create_dense_grid] carries [d = haversine(lat, lon, p_lat, p_lon)]
    and [d <= radius_km]; no point farther than the radius is emitted.
    This holds for every radius and spacing, in particular for
    [radius_km >= 0] and [spacing_km > 0]. *)
Theorem create_dense_grid_within_radius
        (fuel : nat) (lat lon radius_km spacing_km : R)
        (pts : list GridPoint) (p_lat p_lon d : R) :
  create_dense_grid fuel lat lon radius_km spacing_km = Ret pts ->
  In (p_lat, p_lon, d) pts ->
  haversine lat lon p_lat p_lon = Ret d /\ d <= radius_km /\ ~ d > radius_km.
Proof.
  intros Hrun Hin.
  unfold create_dense_grid in Hrun.
  apply bind_Ret_inv in Hrun. destruct Hrun as (dlat & _ & Hrun).
  apply bind_Ret_inv in Hrun. destruct Hrun as (dlon & _ & Hrun).
  cbv zeta in Hrun.
  apply scan_lat_within in Hrun; [| constructor].
  rewrite Forall_forall in Hrun.
  destruct (Hrun _ Hin) as [Hd Hle].
  unfold gp_lat, gp_lon, gp_dist in Hd, Hle. cbn in Hd, Hle.
  repeat split; [exact Hd | exact Hle | lra].
Qed.

(** The grid of radius 1 and spacing 1 around [(0, 0)] is returned and
    keeps its center, at distance 0. *)
Lemma create_dense_grid_within_radius_witness :
  exists pts,
    create_dense_grid 4 0 0 1 1 = Ret pts /\ In (0, 0, 0) pts /\
    (haversine 0 0 0 0 = Ret 0 /\ 0 <= 1 /\ ~ 0 > 1).
Proof.
  destruct unit_grid_center as (pts & Hrun & Hin).
  exists pts. split; [exact Hrun |]. split; [exact Hin |].
  exact (create_dense_grid_within_radius 4 0 0 1 1 pts 0 0 0 Hrun Hin).
Defined.



(** C4. For a positive radius and a positive spacing, every point
    returned by [create_dense_grid] has its latitude in
    [lat - R/111, lat + R/111] and its longitude in
    [lon - R/(111 cos lat), lon + R/(111 cos lat)]. *)
Theorem create_dense_grid_in_box
        (fuel : nat) (lat lon radius_km spacing_km : R)
        (pts : list GridPoint) (p : GridPoint) :
  radius_km > 0 -> spacing_km > 0 ->
  create_dense_grid fuel lat lon radius_km spacing_km = Ret pts ->
  In p pts ->
  in_box (lat - radius_km / 111) (lat + radius_km / 111)
         (lon - radius_km / (111 * cos (radians lat)))
         (lon + radius_km / (111 * cos (radians lat))) p.
Proof.
  intros HR HS Hrun Hin.
  pose proof (create_dense_grid_Ret_cos _ _ _ _ _ _ Hrun) as Hc.
  rewrite create_dense_grid_scan in Hrun by exact Hc.
  destruct (Rtotal_order (cos (radians lat)) 0) as [Hneg | [Hzero | Hpos]].
  - pose proof (div_111_cos_neg radius_km _ HR Hneg) as Hr.
    apply scan_lat_empty_range in Hrun; [| lra].
    subst pts. contradiction.
  - contradiction.
  - assert (Hlat : 0 <= spacing_km / 111)
      by (apply Rlt_le, Rdiv_lt_0_compat; lra).
    assert (Hlon : 0 <= spacing_km / (111 * cos (radians lat)))
      by (apply Rlt_le, div_111_cos_pos; assumption).
    pose proof (scan_lat_box _ _ _ _ _ _ _ _ (lat - radius_km / 111)
                             _ _ _ _ _ Hlat Hlon (Forall_nil _)
                             (Rle_refl _) Hrun) as Hbox.
    rewrite Forall_forall in Hbox. apply Hbox. exact Hin.
Qed.

(** The center of the grid of radius 1 and spacing 1 around [(0, 0)] is
    in its box. *)
Lemma create_dense_grid_in_box_witness :
  exists pts,
    create_dense_grid 4 0 0 1 1 = Ret pts /\ In (0, 0, 0) pts /\
    in_box (0 - 1 / 111) (0 + 1 / 111)
           (0 - 1 / (111 * cos (radians 0)))
           (0 + 1 / (111 * cos (radians 0))) (0, 0, 0).
Proof.
  destruct unit_grid_center as (pts & Hrun & Hin).
  assert (HR : 1 > 0) by lra.
  exists pts. split; [exact Hrun |]. split; [exact Hin |].
  exact (create_dense_grid_in_box 4 0 0 1 1 pts (0, 0, 0) HR HR Hrun Hin).
Defined.




(** ** Latitude dependence of the longitude step *)

Lemma row_latitudes_returns (max step : R) (n : nat) :
  0 < step ->
  forall fuel cur,
    max - cur < INR n * step -> (n < fuel)%nat ->
    exists rows, row_latitudes max step fuel cur = Ret rows.
Proof.
  intros Hstep. induction n as [| n IH]; intros fuel cur Hn Hfuel.
  - destruct fuel as [| fuel]; [lia |]. cbn in Hn. cbn.
    destruct (Rle_dec cur max); [lra |]. eexists. reflexivity.
  - destruct fuel as [| fuel]; [lia |]. cbn -[INR].
    destruct (Rle_dec cur max); [| eexists; reflexivity].
    destruct (IH fuel (cur + step)) as [rest Hrest]; [| lia |].
    + rewrite S_INR in Hn. lra.
    + rewrite Hrest. cbn. eexists. reflexivity.
Qed.

(** The rows are listed once the fuel exceeds a number of steps that
    spans the box, whatever the latitude. *)
Lemma grid_rows_returns (n fuel : nat) (lat radius_km spacing_km : R) :
  0 < spacing_km -> 2 * radius_km < INR n * spacing_km -> (n < fuel)%nat ->
  exists rows, grid_rows fuel lat radius_km spacing_km = Ret rows.
Proof.
  intros HS Hn Hfuel. rewrite grid_rows_eq.
  apply (row_latitudes_returns _ _ n); [| | exact Hfuel].
  - apply Rdiv_lt_0_compat; lra.
  - unfold Rdiv. lra.
Qed.

Lemma lon_step_eq (lat spacing_km : R) :
  cos (radians lat) <> 0 ->
  lon_step lat spacing_km = Ret (spacing_km / (111 * cos (radians lat))).
Proof.
  intros Hc. unfold lon_step. rewrite (degrees_per_km_lon_eq lat Hc).
  cbn [bind]. f_equal. field. exact Hc.
Qed.


(** ** The poles, in exact arithmetic *)

(** With the exact cosine the divisor [km_per_degree_lon] vanishes at
    the latitudes 90 and -90, and [/] raises there. *)
Lemma pole_divisor_zero :
  km_per_degree_lon 90 = 0 /\ km_per_degree_lon (- 90) = 0.
Proof.
  unfold km_per_degree_lon.
  rewrite cos_radians_90, cos_radians_minus_90. split; ring.
Qed.

Lemma pole_grid_raises (fuel : nat) (lon radius_km spacing_km : R) :
  create_dense_grid fuel 90 lon radius_km spacing_km
    = Raise ZeroDivisionError /\
  create_dense_grid fuel (- 90) lon radius_km spacing_km
    = Raise ZeroDivisionError.
Proof.
  split; apply create_dense_grid_raises.
  - apply cos_radians_90.
  - apply cos_radians_minus_90.
Qed.

(** ** The aggregation over cities *)

Lemma row_point_stamp (row : CityRecord) (p : GridPoint) :
  row_point (stamp row p) = p.
Proof. destruct p as [[p_lat p_lon] d]. reflexivity. Qed.

Lemma row_center_stamp (row : CityRecord) (p : GridPoint) :
  row_center (stamp row p) = coordinates row.
Proof. destruct p as [[p_lat p_lon] d]. reflexivity. Qed.

Lemma map_row_point_stamp (row : CityRecord) (l : list GridPoint) :
  map row_point (map (stamp row) l) = l.
Proof.
  induction l as [| p l IH]; cbn; [reflexivity |].
  rewrite row_point_stamp, IH. reflexivity.
Qed.

Lemma map_row_center_stamp (row1 row2 : CityRecord) (l : list GridPoint) :
  coordinates row1 = coordinates row2 ->
  map row_center (map (stamp row1) l) = map row_center (map (stamp row2) l).
Proof.
  intros Heq. induction l as [| p l IH]; cbn; [reflexivity |].
  rewrite !row_center_stamp, IH, Heq. reflexivity.
Qed.

(** Frames with the same coordinates, city by city, give output rows
    with the same grid points and centers. *)
Lemma process_cities_from_coordinates (fuel : nat) (spacing_km : R) :
  forall df1 df2 acc1 acc2,
    map coordinates df1 = map coordinates df2 ->
    map row_point acc1 = map row_point acc2 ->
    map row_center acc1 = map row_center acc2 ->
    omap (map row_point) (process_cities_from fuel df1 spacing_km acc1) =
    omap (map row_point) (process_cities_from fuel df2 spacing_km acc2) /\
    omap (map row_center) (process_cities_from fuel df1 spacing_km acc1) =
    omap (map row_center) (process_cities_from fuel df2 spacing_km acc2).
Proof.
  induction df1 as [| c1 df1 IH]; intros [| c2 df2] acc1 acc2 Hdf Hp Hc;
    try discriminate.
  - cbn. rewrite Hp, Hc. split; reflexivity.
  - cbn in Hdf. injection Hdf as Hlat Hlon Hdf.
    cbn [process_cities_from]. rewrite Hlat, Hlon.
    destruct (create_dense_grid fuel (latitude c2) (longitude c2)
                                CITY_RADIUS_KM spacing_km) as [g | e |];
      cbn [bind]; [| split; reflexivity | split; reflexivity].
    apply IH; [exact Hdf | |].
    + rewrite !map_app, !map_row_point_stamp, Hp. reflexivity.
    + rewrite !map_app, Hc. f_equal. apply map_row_center_stamp.
      unfold coordinates. rewrite Hlat, Hlon. reflexivity.
Qed.

(** The rows of a single city are its grid, stamped. *)
Lemma process_cities_single (fuel : nat) (c : CityRecord) (spacing_km : R) :
  process_cities fuel [c] spacing_km =
  omap (map (stamp c))
       (create_dense_grid fuel (latitude c) (longitude c)
                          CITY_RADIUS_KM spacing_km).
Proof.
  unfold process_cities, omap. cbn.
  destruct (create_dense_grid fuel (latitude c) (longitude c)
                              CITY_RADIUS_KM spacing_km); reflexivity.
Qed.

(** Every city of the frame gets its grid when no latitude has a
    vanishing or negative cosine and the fuel spans the 20 km box. *)
Lemma process_cities_returns (n fuel : nat) (spacing_km : R) :
  0 < spacing_km -> 2 * CITY_RADIUS_KM < INR n * spacing_km ->
  (n < fuel)%nat ->
  forall df acc,
    Forall (fun c => 0 < cos (radians (latitude c))) df ->
    exists rows, process_cities_from fuel df spacing_km acc = Ret rows.
Proof.
  intros HS Hn Hfuel. induction df as [| c df IH]; intros acc Hdf.
  - cbn. eexists. reflexivity.
  - inversion Hdf as [| ? ? Hc Hdf']; subst. cbn [process_cities_from].
    destruct (create_dense_grid_returns n fuel (latitude c) (longitude c)
                                        CITY_RADIUS_KM spacing_km)
      as [g Hg]; try assumption.
    rewrite Hg. cbn [bind]. apply IH. exact Hdf'.
Qed.

(** C8. Grid generation depends on the center coordinates only: two
    city records with the same latitude and longitude, whatever their
    metadata, get the same sequence of grid points from
    [create_dense_grid], and their output rows agree on [point_lat],
    [point_lon] and [distance_km] (and on the center), each row carrying
    the identifier, name, country and population of its own city. *)
Theorem same_coordinates_same_grid
        (fuel : nat) (c1 c2 : CityRecord) (radius_km spacing_km : R) :
  latitude c1 = latitude c2 -> longitude c1 = longitude c2 ->
  create_dense_grid fuel (latitude c1) (longitude c1) radius_km spacing_km =
  create_dense_grid fuel (latitude c2) (longitude c2) radius_km spacing_km /\
  omap (map row_point) (process_cities fuel [c1] spacing_km) =
  omap (map row_point) (process_cities fuel [c2] spacing_km) /\
  omap (map row_center) (process_cities fuel [c1] spacing_km) =
  omap (map row_center) (process_cities fuel [c2] spacing_km) /\
  (forall rows, process_cities fuel [c1] spacing_km = Ret rows ->
     Forall (fun r => city_id r = geonameid c1 /\ city_name r = name c1 /\
                      country r = country_code c1 /\
                      out_population r = population c1) rows) /\
  (forall rows, process_cities fuel [c2] spacing_km = Ret rows ->
     Forall (fun r => city_id r = geonameid c2 /\ city_name r = name c2 /\
                      country r = country_code c2 /\
                      out_population r = population c2) rows).
Proof.
  intros Hlat Hlon.
  assert (Hmeta : forall c rows,
             process_cities fuel [c] spacing_km = Ret rows ->
             Forall (fun r => city_id r = geonameid c /\ city_name r = name c /\
                              country r = country_code c /\
                              out_population r = population c) rows).
  { intros c rows Hrows. rewrite process_cities_single in Hrows.
    apply bind_Ret_inv in Hrows. destruct Hrows as (g & _ & Heq).
    injection Heq as <-. apply Forall_forall. intros r Hr.
    apply in_map_iff in Hr. destruct Hr as ([[p_lat p_lon] d] & <- & _).
    cbn. repeat split. }
  split; [rewrite Hlat, Hlon; reflexivity |].
  destruct (process_cities_from_coordinates fuel spacing_km [c1] [c2] [] [])
    as [Hp Hc]; try reflexivity.
  { cbn. unfold coordinates. rewrite Hlat, Hlon. reflexivity. }
  repeat split; try assumption; apply Hmeta.
Qed.

(** Two cities at [(0, 0)]: with 42 units of fuel the 20 km grid is
    returned, and their rows differ in the metadata only. *)
Lemma same_coordinates_same_grid_witness :
  latitude city_quito = latitude city_null_island /\
  longitude city_quito = longitude city_null_island /\
  (exists rows, process_cities 42 [city_quito] 1 = Ret rows) /\
  create_dense_grid 42 (latitude city_quito) (longitude city_quito) 20 1 =
  create_dense_grid 42 (latitude city_null_island)
                    (longitude city_null_island) 20 1 /\
  omap (map row_point) (process_cities 42 [city_quito] 1) =
  omap (map row_point) (process_cities 42 [city_null_island] 1) /\
  omap (map row_center) (process_cities 42 [city_quito] 1) =
  omap (map row_center) (process_cities 42 [city_null_island] 1) /\
  (forall rows, process_cities 42 [city_quito] 1 = Ret rows ->
     Forall (fun r => city_id r = geonameid city_quito /\
                      city_name r = name city_quito /\
                      country r = country_code city_quito /\
                      out_population r = population city_quito) rows) /\
  (forall rows, process_cities 42 [city_null_island] 1 = Ret rows ->
     Forall (fun r => city_id r = geonameid city_null_island /\
                      city_name r = name city_null_island /\
                      country r = country_code city_null_island /\
                      out_population r = population city_null_island) rows).
Proof.
  split; [reflexivity |]. split; [reflexivity |]. split.
  - apply (process_cities_returns 41 42 1); try lia.
    + lra.
    + unfold CITY_RADIUS_KM. replace (INR 41) with 41 by (cbn; lra). lra.
    + constructor; [| constructor]. cbn. rewrite cos_radians_0. lra.
  - exact (same_coordinates_same_grid 42 city_quito city_null_island 20 1
                                      eq_refl eq_refl).
Defined.

(** * Further properties *)

(** ** More on the haversine formula *)
















Lemma cos_radians_pos (lat : R) : -90 < lat < 90 -> 0 < cos (radians lat).
Proof.
  intros H. pose proof PI_RGT_0 as Hpi.
  apply cos_gt_0; unfold radians; nra.
Qed.







(** ** More on the grid generator *)








(** When the radius is [k] spacings, row [k] and column [k] of the
    lattice meet at the center. *)
Lemma lattice_center (k : nat) (x radius_km spacing_km c : R) :
  radius_km = INR k * spacing_km -> c <> 0 ->
  x - radius_km / (111 * c) + INR k * (spacing_km / (111 * c)) = x.
Proof.
  intros HR Hc. rewrite HR. field. exact Hc.
Qed.

Lemma center_in_grid (fuel k : nat) (lat lon radius_km spacing_km : R)
      (pts : list GridPoint) :
  spacing_km > 0 -> cos (radians lat) > 0 ->
  radius_km = INR k * spacing_km ->
  create_dense_grid fuel lat lon radius_km spacing_km = Ret pts ->
  In (lat, lon, 0) pts.
Proof.
  intros HS Hc HR Hrun.
  pose proof (create_dense_grid_complete fuel lat lon radius_km spacing_km
                                         pts k k 0 HS Hc Hrun) as H.
  assert (Hr : 0 <= radius_km) by (pose proof (pos_INR k); nra).
  assert (E1 : lat - radius_km / 111 + INR k * (spacing_km / 111) = lat)
    by (rewrite HR; field).
  rewrite E1, (lattice_center k lon radius_km spacing_km _ HR) in H by lra.
  assert (Hinv : 0 < / (111 * cos (radians lat)))
    by (apply Rinv_0_lt_compat; nra).
  apply H.
  - unfold Rdiv. lra.
  - unfold Rdiv. nra.
  - apply haversine_self.
  - exact Hr.
Qed.



(** A row with a step that does not advance never ends. *)
Lemma scan_lon_diverges (lat lon radius_km max_lon lon_step' : R)
      (fuel : nat) :
  lon_step' <= 0 ->
  forall current_lat cur acc,
    cur <= max_lon ->
    scan_lon lat lon radius_km max_lon lon_step' fuel current_lat cur acc
    = OutOfFuel.
Proof.
  intros Hstep. induction fuel as [| fuel IH]; intros clat cur acc Hle.
  - reflexivity.
  - cbn. destruct (Rle_dec cur max_lon); [| lra].
    rewrite haversine_eq. cbn [bind]. cbv zeta. apply IH. lra.
Qed.

(** X10. With a spacing of zero or less (and a radius that is not
    negative, a latitude with a positive cosine) the scan never ends:
    the first row's loop does not advance, whatever the fuel. *)
Theorem create_dense_grid_nonpositive_spacing
        (fuel : nat) (lat lon radius_km spacing_km : R) :
  spacing_km <= 0 -> radius_km >= 0 -> cos (radians lat) > 0 ->
  create_dense_grid fuel lat lon radius_km spacing_km = OutOfFuel.
Proof.
  intros HS HR Hc.
  rewrite create_dense_grid_scan by lra.
  assert (Hinv : 0 < / (111 * cos (radians lat)))
    by (apply Rinv_0_lt_compat; nra).
  destruct fuel as [| fuel]; [reflexivity |].
  cbn -[scan_lon].
  destruct (Rle_dec (lat - radius_km / 111) (lat + radius_km / 111))
    as [_ | H]; [| exfalso; apply H; unfold Rdiv; lra].
  rewrite scan_lon_diverges;
    [reflexivity | unfold Rdiv; nra | unfold Rdiv; nra].
Qed.

(** Spacing 0 around [(0, 0)]. *)
Lemma create_dense_grid_nonpositive_spacing_witness :
  0 <= 0 /\ 20 >= 0 /\ cos (radians 0) > 0 /\
  create_dense_grid 1000 0 0 20 0 = OutOfFuel.
Proof.
  assert (HS : 0 <= 0) by lra.
  assert (HR : 20 >= 0) by lra.
  assert (Hc : cos (radians 0) > 0) by (rewrite cos_radians_0; lra).
  repeat split; try assumption.
  exact (create_dense_grid_nonpositive_spacing 1000 0 0 20 0 HS HR Hc).
Defined.




(** ** The size of the grid *)




Lemma scan_lon_length (lat lon radius_km max_lon lon_step' : R) (n : nat) :
  0 < lon_step' ->
  forall fuel current_lat cur acc pts,
    max_lon - cur < INR n * lon_step' ->
    scan_lon lat lon radius_km max_lon lon_step' fuel current_lat cur acc
    = Ret pts ->
    (List.length pts <= List.length acc + n)%nat.
Proof.
  intros Hstep. induction n as [| n IH]; intros fuel clat cur acc pts Hn Hrun.
  - destruct fuel as [| fuel]; [discriminate |]. cbn in Hn, Hrun.
    destruct (Rle_dec cur max_lon); [lra |]. injection Hrun as <-. lia.
  - destruct fuel as [| fuel]; [discriminate |]. cbn in Hrun.
    destruct (Rle_dec cur max_lon); [| injection Hrun as <-; lia].
    apply bind_Ret_inv in Hrun. destruct Hrun as (d & _ & Hrun).
    apply IH in Hrun; [| rewrite S_INR in Hn; lra].
    destruct (Rle_dec d radius_km);
      [rewrite length_app in Hrun; cbn in Hrun |]; lia.
Qed.

Lemma scan_lat_length
      (lat lon radius_km max_lat max_lon min_lon lat_step' lon_step' : R)
      (row_fuel m n : nat) :
  0 < lat_step' -> 0 < lon_step' ->
  max_lon - min_lon < INR m * lon_step' ->
  forall fuel cur acc pts,
    max_lat - cur < INR n * lat_step' ->
    scan_lat lat lon radius_km max_lat max_lon min_lon lat_step' lon_step'
             row_fuel fuel cur acc = Ret pts ->
    (List.length pts <= List.length acc + n * m)%nat.
Proof.
  intros Hlat Hlon Hm.
  induction n as [| n IH]; intros fuel cur acc pts Hn Hrun.
  - destruct fuel as [| fuel]; [discriminate |]. cbn in Hn, Hrun.
    destruct (Rle_dec cur max_lat); [lra |]. injection Hrun as <-. lia.
  - destruct fuel as [| fuel]; [discriminate |]. cbn in Hrun.
    destruct (Rle_dec cur max_lat); [| injection Hrun as <-; lia].
    apply bind_Ret_inv in Hrun. destruct Hrun as (acc' & Hrow & Hrun).
    apply (scan_lon_length _ _ _ _ _ m Hlon) in Hrow; [| exact Hm].
    apply IH in Hrun; [| rewrite S_INR in Hn; lra]. lia.
Qed.

(** A grid that is returned has at most [n * n] points when [n]
    spacings exceed twice the radius, whatever the sign of the cosine. *)
Lemma create_dense_grid_length
      (n fuel : nat) (lat lon radius_km spacing_km : R)
      (pts : list GridPoint) :
  spacing_km > 0 -> radius_km > 0 ->
  2 * radius_km < INR n * spacing_km ->
  create_dense_grid fuel lat lon radius_km spacing_km = Ret pts ->
  (List.length pts <= n * n)%nat.
Proof.
  intros HS HR Hn Hrun.
  pose proof (create_dense_grid_Ret_cos _ _ _ _ _ _ Hrun) as Hc.
  rewrite create_dense_grid_scan in Hrun by exact Hc.
  destruct (Rtotal_order (cos (radians lat)) 0) as [Hneg | [Hzero | Hpos]].
  - pose proof (div_111_cos_neg radius_km _ HR Hneg) as Hr.
    apply scan_lat_empty_range in Hrun; [| lra]. subst pts. cbn. lia.
  - contradiction.
  - assert (Hinv : 0 < / (111 * cos (radians lat)))
      by (apply Rinv_0_lt_compat; nra).
    apply (scan_lat_length _ _ _ _ _ _ _ _ _ n n) in Hrun.
    + cbn in Hrun. exact Hrun.
    + apply Rdiv_lt_0_compat; lra.
    + apply div_111_cos_pos; lra.
    + unfold Rdiv. nra.
    + unfold Rdiv. lra.
Qed.



(** ** The box is taller than the disc *)








(** ** Moving the center along a parallel *)




(** ** More on the aggregation over cities *)

Lemma process_cities_from_acc (fuel : nat) (spacing_km : R) :
  forall df acc,
    process_cities_from fuel df spacing_km acc =
    omap (app acc) (process_cities_from fuel df spacing_km []).
Proof.
  induction df as [| c df IH]; intros acc.
  - cbn. rewrite app_nil_r. reflexivity.
  - cbn [process_cities_from].
    destruct (create_dense_grid fuel (latitude c) (longitude c)
                                CITY_RADIUS_KM spacing_km) as [g | e |];
      cbn [bind omap]; try reflexivity.
    rewrite (IH (acc ++ map (stamp c) g)), (IH ([] ++ map (stamp c) g)).
    cbn [app].
    destruct (process_cities_from fuel df spacing_km []) as [r | e |];
      cbn; try reflexivity.
    rewrite app_assoc. reflexivity.
Qed.

(** The rows of a frame are the stamped grid of its first city followed
    by the rows of the other cities. *)
Lemma process_cities_cons_eq (fuel : nat) (c : CityRecord)
      (df : list CityRecord) (spacing_km : R) :
  process_cities fuel (c :: df) spacing_km =
  (grid_points <- create_dense_grid fuel (latitude c) (longitude c)
                                    CITY_RADIUS_KM spacing_km ;;
   rest <- process_cities fuel df spacing_km ;;
   Ret (map (stamp c) grid_points ++ rest)).
Proof.
  unfold process_cities. cbn [process_cities_from].
  destruct (create_dense_grid fuel (latitude c) (longitude c)
                              CITY_RADIUS_KM spacing_km) as [g | e |];
    cbn [bind]; try reflexivity.
  rewrite process_cities_from_acc. reflexivity.
Qed.

(** X17. Processing two frames one after the other and joining the rows
    is processing the joined frame: cities do not influence one another,
    the rows come out city by city in the order of the frame, and the
    first failure in that order is the failure of the whole. *)
Theorem process_cities_app (fuel : nat) (df1 df2 : list CityRecord)
        (spacing_km : R) :
  process_cities fuel (df1 ++ df2) spacing_km =
  (rows1 <- process_cities fuel df1 spacing_km ;;
   rows2 <- process_cities fuel df2 spacing_km ;;
   Ret (rows1 ++ rows2)).
Proof.
  induction df1 as [| c df1 IH].
  - cbn [app]. unfold process_cities at 2. cbn.
    destruct (process_cities fuel df2 spacing_km); reflexivity.
  - rewrite <- app_comm_cons, !process_cities_cons_eq, IH.
    destruct (create_dense_grid fuel (latitude c) (longitude c)
                                CITY_RADIUS_KM spacing_km) as [g | e |];
      cbn [bind]; try reflexivity.
    destruct (process_cities fuel df1 spacing_km) as [r1 | e |];
      cbn [bind]; try reflexivity.
    destruct (process_cities fuel df2 spacing_km) as [r2 | e |];
      cbn [bind]; try reflexivity.
    rewrite app_assoc. reflexivity.
Qed.

(** Every output row is a grid point of a city of the frame, stamped. *)
Lemma process_cities_rows (fuel : nat) (spacing_km : R) :
  forall df rows r,
    process_cities fuel df spacing_km = Ret rows -> In r rows ->
    exists c pts p,
      In c df /\
      create_dense_grid fuel (latitude c) (longitude c)
                        CITY_RADIUS_KM spacing_km = Ret pts /\
      In p pts /\ r = stamp c p.
Proof.
  induction df as [| c df IH]; intros rows r Hrun Hin.
  - unfold process_cities in Hrun. cbn in Hrun. injection Hrun as <-.
    contradiction.
  - rewrite process_cities_cons_eq in Hrun.
    apply bind_Ret_inv in Hrun. destruct Hrun as (g & Hg & Hrun).
    apply bind_Ret_inv in Hrun. destruct Hrun as (rest & Hrest & Heq).
    injection Heq as <-. apply in_app_or in Hin. destruct Hin as [Hin | Hin].
    + apply in_map_iff in Hin. destruct Hin as (p & <- & Hp).
      exists c, g, p. repeat split; try assumption. left. reflexivity.
    + destruct (IH _ _ Hrest Hin) as (c' & pts & p & Hc' & Hpts & Hp & Hr).
      exists c', pts, p. repeat split; try assumption. right. exact Hc'.
Qed.

(** Every grid point of every city of the frame gives an output row. *)
Lemma process_cities_rows_conv (fuel : nat) (spacing_km : R) :
  forall df rows c,
    process_cities fuel df spacing_km = Ret rows -> In c df ->
    exists pts,
      create_dense_grid fuel (latitude c) (longitude c)
                        CITY_RADIUS_KM spacing_km = Ret pts /\
      forall p, In p pts -> In (stamp c p) rows.
Proof.
  induction df as [| c0 df IH]; intros rows c Hrun Hc.
  - contradiction.
  - rewrite process_cities_cons_eq in Hrun.
    apply bind_Ret_inv in Hrun. destruct Hrun as (g & Hg & Hrun).
    apply bind_Ret_inv in Hrun. destruct Hrun as (rest & Hrest & Heq).
    injection Heq as <-. destruct Hc as [-> | Hc].
    + exists g. split; [exact Hg |].
      intros p Hp. apply in_or_app. left. apply in_map. exact Hp.
    + destruct (IH _ _ Hrest Hc) as (pts & Hpts & Hall).
      exists pts. split; [exact Hpts |].
      intros p Hp. apply in_or_app. right. apply Hall. exact Hp.
Qed.

(** Two cities at [(0, 0)], radius 20 km, spacing 1 km: the rows are
    returned with 42 units of fuel and the first city's center is one
    of them. *)
Lemma example_rows :
  exists rows,
    process_cities 42 [city_quito; city_null_island] 1 = Ret rows /\
    In (stamp city_quito (0, 0, 0)) rows.
Proof.
  assert (Hc : 0 < cos (radians 0)) by (rewrite cos_radians_0; lra).
  assert (Hn : 2 * CITY_RADIUS_KM < INR 41 * 1).
  { unfold CITY_RADIUS_KM.
    replace (INR 41) with (INR 40 + 1) by (rewrite <- S_INR; reflexivity).
    replace (INR 40) with 40 by (cbn; lra). lra. }
  destruct (process_cities_returns 41 42 1 ltac:(lra) Hn ltac:(lia)
              [city_quito; city_null_island] [])
    as [rows Hrows].
  { repeat constructor; exact Hc. }
  exists rows. split; [exact Hrows |].
  destruct (process_cities_rows_conv 42 1 _ rows city_quito Hrows)
    as (pts & Hpts & Hall); [left; reflexivity |].
  apply Hall.
  assert (HS : 1 > 0) by lra.
  assert (HR : CITY_RADIUS_KM = INR 20 * 1).
  { unfold CITY_RADIUS_KM. replace (INR 20) with 20 by (cbn; lra). lra. }
  exact (center_in_grid 42 20 0 0 CITY_RADIUS_KM 1 pts HS Hc HR Hpts).
Qed.

(** X18. Every output row carries the haversine distance from its
    city's center to its point, between 0 and the 20 km of
    [CITY_RADIUS_KM] whatever the spacing, and the identifier, name,
    country, population and coordinates of one city of the frame. *)
Theorem process_cities_row_invariant
        (fuel : nat) (df : list CityRecord) (spacing_km : R)
        (rows : list OutputRow) (r : OutputRow) :
  process_cities fuel df spacing_km = Ret rows -> In r rows ->
  haversine (city_lat r) (city_lon r) (point_lat r) (point_lon r)
    = Ret (distance_km r) /\
  0 <= distance_km r <= CITY_RADIUS_KM /\
  exists c, In c df /\
            city_id r = geonameid c /\ city_name r = name c /\
            country r = country_code c /\ out_population r = population c /\
            city_lat r = latitude c /\ city_lon r = longitude c.
Proof.
  intros Hrun Hin.
  destruct (process_cities_rows _ _ _ _ _ Hrun Hin)
    as (c & pts & [[p_lat p_lon] d] & Hc & Hpts & Hp & ->).
  unfold create_dense_grid in Hpts.
  apply bind_Ret_inv in Hpts. destruct Hpts as (dlat & _ & Hpts).
  apply bind_Ret_inv in Hpts. destruct Hpts as (dlon & _ & Hpts).
  cbv zeta in Hpts.
  apply scan_lat_within in Hpts; [| constructor].
  rewrite Forall_forall in Hpts. destruct (Hpts _ Hp) as [Hd Hle].
  unfold gp_lat, gp_lon, gp_dist in Hd, Hle. cbn in Hd, Hle |- *.
  split; [exact Hd |]. split.
  - split; [| exact Hle].
    rewrite haversine_eq in Hd. injection Hd as <-.
    pose proof (haversine_a_bound (latitude c) (longitude c) p_lat p_lon)
      as Ha.
    pose proof (asin_unit _ (sqrt_unit _ Ha)) as Hs.
    unfold EARTH_RADIUS_KM. lra.
  - exists c. repeat split. exact Hc.
Qed.

(** The center row of the first of two cities. *)
Lemma process_cities_row_invariant_witness :
  exists rows,
    process_cities 42 [city_quito; city_null_island] 1 = Ret rows /\
    In (stamp city_quito (0, 0, 0)) rows /\
    (let r := stamp city_quito (0, 0, 0) in
     haversine (city_lat r) (city_lon r) (point_lat r) (point_lon r)
       = Ret (distance_km r) /\
     0 <= distance_km r <= CITY_RADIUS_KM /\
     exists c, In c [city_quito; city_null_island] /\
               city_id r = geonameid c /\ city_name r = name c /\
               country r = country_code c /\
               out_population r = population c /\
               city_lat r = latitude c /\ city_lon r = longitude c).
Proof.
  destruct example_rows as (rows & Hrun & Hin).
  exists rows. split; [exact Hrun |]. split; [exact Hin |].
  exact (process_cities_row_invariant 42 [city_quito; city_null_island] 1
                                      rows _ Hrun Hin).
Defined.



(** X20. The output has at most [n * n] rows per city when [n] spacings
    exceed the 40 km across the box: at most 1681 rows per city for the
    spacing of 1 km. *)
Theorem process_cities_size
        (n fuel : nat) (df : list CityRecord) (spacing_km : R)
        (rows : list OutputRow) :
  spacing_km > 0 -> 2 * CITY_RADIUS_KM < INR n * spacing_km ->
  process_cities fuel df spacing_km = Ret rows ->
  (List.length rows <= n * n * List.length df)%nat.
Proof.
  intros HS Hn. revert rows.
  induction df as [| c df IH]; intros rows Hrun.
  - unfold process_cities in Hrun. cbn in Hrun. injection Hrun as <-.
    cbn. lia.
  - rewrite process_cities_cons_eq in Hrun.
    apply bind_Ret_inv in Hrun. destruct Hrun as (g & Hg & Hrun).
    apply bind_Ret_inv in Hrun. destruct Hrun as (rest & Hrest & Heq).
    injection Heq as <-.
    apply (create_dense_grid_length n) in Hg;
      [| exact HS | unfold CITY_RADIUS_KM; lra | exact Hn].
    specialize (IH _ Hrest).
    rewrite length_app, length_map. cbn [List.length]. lia.
Qed.

(** Two cities, spacing 1 km. *)
Lemma process_cities_size_witness :
  exists rows,
    process_cities 42 [city_quito; city_null_island] 1 = Ret rows /\
    (List.length rows
     <= 41 * 41 * List.length [city_quito; city_null_island])%nat.
Proof.
  destruct example_rows as (rows & Hrun & _).
  assert (HS : 1 > 0) by lra.
  assert (Hn : 2 * CITY_RADIUS_KM < INR 41 * 1).
  { unfold CITY_RADIUS_KM.
    replace (INR 41) with (INR 40 + 1) by (rewrite <- S_INR; reflexivity).
    replace (INR 40) with 40 by (cbn; lra). lra. }
  exists rows. split; [exact Hrun |].
  exact (process_cities_size 41 42 [city_quito; city_null_island] 1 rows
                             HS Hn Hrun).
Defined.

(** ** The longitude step between the poles *)

(** X21. Between the equator and a pole the longitude step grows with
    the latitude and is never less than the latitude step [S / 111]; it
    is the same on both sides of the equator. *)
Theorem lon_step_widens (lat1 lat2 spacing_km : R) :
  0 <= lat1 <= lat2 -> lat2 < 90 -> spacing_km > 0 ->
  exists s1 s2,
    lon_step lat1 spacing_km = Ret s1 /\
    lon_step lat2 spacing_km = Ret s2 /\
    lon_step (- lat1) spacing_km = Ret s1 /\
    lat_step spacing_km = Ret (spacing_km / 111) /\
    spacing_km / 111 <= s1 <= s2.
Proof.
  intros Hlat Hlt HS. pose proof PI_RGT_0 as Hpi.
  assert (Hc1 : 0 < cos (radians lat1)) by (apply cos_radians_pos; lra).
  assert (Hc2 : 0 < cos (radians lat2)) by (apply cos_radians_pos; lra).
  assert (Hle : cos (radians lat2) <= cos (radians lat1)).
  { apply cos_decr_1; unfold radians; nra. }
  assert (Hone : cos (radians lat1) <= 1) by apply COS_bound.
  exists (spacing_km / (111 * cos (radians lat1))),
         (spacing_km / (111 * cos (radians lat2))).
  split; [apply lon_step_eq; lra |].
  split; [apply lon_step_eq; lra |].
  split.
  { rewrite lon_step_eq.
    - replace (radians (- lat1)) with (- radians lat1)
        by (unfold radians; field).
      rewrite cos_neg. reflexivity.
    - replace (radians (- lat1)) with (- radians lat1)
        by (unfold radians; field).
      rewrite cos_neg. lra. }
  split.
  { unfold lat_step. rewrite degrees_per_km_lat_eq. cbn [bind].
    f_equal. field. }
  assert (H1 : / (111 * cos (radians lat1)) <= / (111 * cos (radians lat2)))
    by (apply Rinv_le_contravar; nra).
  assert (H2 : / 111 <= / (111 * cos (radians lat1)))
    by (apply Rinv_le_contravar; nra).
  unfold Rdiv. split; nra.
Qed.

(** Latitudes 0 and 60 at spacing 1. *)
Lemma lon_step_widens_witness :
  exists s1 s2,
    lon_step 0 1 = Ret s1 /\
    lon_step 60 1 = Ret s2 /\
    lon_step (- 0) 1 = Ret s1 /\
    lat_step 1 = Ret (1 / 111) /\
    1 / 111 <= s1 <= s2.
Proof.
  assert (Hlat : 0 <= 0 <= 60) by lra.
  assert (Hlt : 60 < 90) by lra.
  assert (HS : 1 > 0) by lra.
  exact (lon_step_widens 0 60 1 Hlat Hlt HS).
Defined.

(** ** The exceptions of the grid generator *)



